(** * platform-receptor-controller: session object and management handlers

    A shallow embedding of
      - [internal/controller/receptor.go]   (module [Controller])
      - [internal/controller/api/management.go] (module [Api])
    followed by the properties of the connection/session layer. *)

From Stdlib Require Import ZArith NArith.
From stdpp Require Import gmap strings list.

Open Scope string_scope.
Open Scope list_scope.

(** ** Go values shared by both packages *)

(** A Go [interface{}]: [inil] is the nil interface, the other
    constructors are dynamic values (the code never inspects them). *)
Inductive iface : Type :=
| inil
| istr (s : string)
| inum (z : Z)
| iobj (fields : list (string * string)).

Definition is_nil (v : iface) : bool :=
  match v with inil => true | _ => false end.

(** A Go [error]: [None] is [nil], [Some m] an error whose [Error()] is [m]. *)
Definition error : Type := option string.

(** How a call ends.  A send on a channel can park the goroutine or
    panic, so a method is not always a function to its result. *)
Inductive outcome (A : Type) : Type :=
| Returns (a : A)
| Blocks
| Panics (why : string).
Arguments Returns {A} a.
Arguments Blocks {A}.
Arguments Panics {A} why.

(** ** Channels

    A channel value is a reference ([None] is the nil channel) into a
    store of channel objects.  For the sender, a channel object is: whether
    it was closed, how many sends can complete right now ([room]: free
    buffer slots plus receivers parked on it), and the values handed to it
    so far, oldest first. *)
Definition chanref : Type := option nat.

Record hchan (A : Type) : Type := mk_hchan {
  closed : bool;
  room : nat;
  sent : list A
}.
Arguments mk_hchan {A}.
Arguments closed {A}.
Arguments room {A}.
Arguments sent {A}.

Inductive sendres (A : Type) : Type :=
| SendDone (c : hchan A)
| SendBlocks
| SendPanics.
Arguments SendDone {A} c.
Arguments SendBlocks {A}.
Arguments SendPanics {A}.

(** [c <- v] on a channel object: a closed channel panics, a channel with
    no room parks the sender, otherwise the value is handed over. *)
Definition chansend {A : Type} (c : hchan A) (v : A) : sendres A :=
  if closed c then SendPanics
  else match room c with
       | O => SendBlocks
       | S n => SendDone (mk_hchan (closed c) n (sent c ++ [v]))
       end.

(** ** The standard logger

    [log.Printf] and [log.Println] format their message and pass it to the
    logger's [Output], which writes a header, the message, and a line feed
    when the message does not already end in one.  A log entry below is the
    text of one such write after the header, without the line feed that
    ends it. *)
Definition line_feed : Ascii.ascii := Ascii.ascii_of_nat 10.

Fixpoint ends_in_line_feed (s : string) : bool :=
  match s with
  | EmptyString => false
  | String c s' =>
      match s' with
      | EmptyString => Ascii.eqb c line_feed
      | String _ _ => ends_in_line_feed s'
      end
  end.

(** What [Output] writes after the header. *)
Definition Output (s : string) : string :=
  if ends_in_line_feed s then s else s +:+ String line_feed EmptyString.

(** A text without its last character. *)
Fixpoint without_last (s : string) : string :=
  match s with
  | EmptyString => EmptyString
  | String c s' =>
      match s' with
      | EmptyString => EmptyString
      | String _ _ => String c (without_last s')
      end
  end.

(** The entry of [log.Printf] for an already formatted message. *)
Definition Printf_entry (msg : string) : string := without_last (Output msg).

Module Controller.

(** [uuid.UUID], a 128-bit value. *)
Definition UUID : Type := N.

(** [controller.Message] as the composite literal of [SendMessage] fills it. *)
Record Message : Type := mk_Message {
  MessageID : UUID;
  Recipient : string;
  RouteList : list string;
  Payload : iface;
  Directive : string
}.

Record ReceptorService : Type := mk_ReceptorService {
  Account : string;
  NodeID : string;
  PeerNodeID : string;
  Metadata : iface;
  SendChannel : chanref;
  ControlChannel : chanref;
  ErrorChannel : chanref
}.

(** What the methods can touch besides the receiver: the channel objects
    (one store per element type) and the standard logger's output, one
    entry per write. *)
Record World : Type := mk_World {
  dataChans : gmap nat (hchan Message);
  controlChans : gmap nat (hchan string);
  errorChans : gmap nat (hchan error);
  logs : list string
}.

Definition log_line (l : string) (w : World) : World :=
  mk_World (dataChans w) (controlChans w) (errorChans w) (logs w ++ [l]).

Definition set_dataChans (d : gmap nat (hchan Message)) (w : World) : World :=
  mk_World d (controlChans w) (errorChans w) (logs w).

(** [ch <- msg] through a reference.  The nil channel blocks forever; a
    reference always names a channel object in Go, so a reference outside
    the store is given the nil channel's behaviour. *)
Definition send_on (ch : chanref) (msg : Message) (w : World)
  : outcome unit * World :=
  match ch with
  | None => (Blocks, w)
  | Some l =>
      match dataChans w !! l with
      | None => (Blocks, w)
      | Some c =>
          match chansend c msg with
          | SendDone c' => (Returns tt, set_dataChans (<[l := c']> (dataChans w)) w)
          | SendBlocks => (Blocks, w)
          | SendPanics => (Panics "send on closed channel", w)
          end
      end
  end.

(** The values handed to the channel behind a reference so far. *)
Definition outbound (ch : chanref) (w : World) : list Message :=
  match ch with
  | None => []
  | Some l => match dataChans w !! l with
              | None => []
              | Some c => sent c
              end
  end.

(** The send on [ch] can complete now. *)
Definition can_send (ch : chanref) (w : World) : bool :=
  match ch with
  | None => false
  | Some l => match dataChans w !! l with
              | None => false
              | Some c => negb (closed c) && (0 <? room c)%nat
              end
  end.

(** [func (r *ReceptorService) RegisterConnection(peerNodeID, metadata) error] *)
Definition RegisterConnection (peerNodeID : string) (metadata : iface)
    (r : ReceptorService) (w : World) : error * ReceptorService * World :=
  let w1 := log_line
              (Printf_entry ("Registering a connection to node " +:+ peerNodeID))
              w in
  let r1 := mk_ReceptorService (Account r) (NodeID r) peerNodeID (Metadata r)
              (SendChannel r) (ControlChannel r) (ErrorChannel r) in
  let r2 := mk_ReceptorService (Account r1) (NodeID r1) (PeerNodeID r1) metadata
              (SendChannel r1) (ControlChannel r1) (ErrorChannel r1) in
  (None, r2, w1).

(** [func (r *ReceptorService) UpdateRoutingTable(edges, seen string) error] *)
Definition UpdateRoutingTable (edges seen : string)
    (r : ReceptorService) (w : World) : error * ReceptorService * World :=
  let w1 := log_line ("edges: " +:+ edges) w in
  let w2 := log_line ("seen: " +:+ seen) w1 in
  (None, r, w2).

(** [func (r *ReceptorService) SendMessage(recipient, route, payload, directive)],
    which returns a pointer to a [uuid.UUID] and an [error].
    [newRandom] is what [uuid.NewRandom()] returns in this call.  The
    result pointer is [None] for nil. *)
Definition SendMessage (newRandom : UUID * error)
    (recipient : string) (route : list string) (payload : iface)
    (directive : string) (r : ReceptorService) (w : World)
  : outcome (option UUID * error) * ReceptorService * World :=
  let '(jobID, err) := newRandom in
  match err with
  | Some _ =>
      let w1 := log_line
        "Unable to generate UUID for routing the job...cannot proceed" w in
      (Returns (None, err), r, w1)
  | None =>
      let msg := mk_Message jobID recipient route payload directive in
      match send_on (SendChannel r) msg w with
      | (Returns _, w1) => (Returns (Some jobID, None), r, w1)
      | (Blocks, w1) => (Blocks, r, w1)
      | (Panics why, w1) => (Panics why, r, w1)
      end
  end.

(** [func (r *ReceptorService) Close()] *)
Definition Close (r : ReceptorService) (w : World) : ReceptorService * World :=
  (r, w).

(** [func (r *ReceptorService) DisconnectReceptorNetwork()] *)
Definition DisconnectReceptorNetwork (r : ReceptorService) (w : World)
  : ReceptorService * World :=
  (r, w).

(** One call of a session method, with its arguments. *)
Inductive call : Type :=
| CallRegisterConnection (peerNodeID : string) (metadata : iface)
| CallUpdateRoutingTable (edges seen : string)
| CallSendMessage (newRandom : UUID * error) (recipient : string)
    (route : list string) (payload : iface) (directive : string)
| CallClose
| CallDisconnectReceptorNetwork.

(** The receiver and the world after a call, however the call ended. *)
Definition after (c : call) (r : ReceptorService) (w : World)
  : ReceptorService * World :=
  match c with
  | CallRegisterConnection p m =>
      let '(_, r1, w1) := RegisterConnection p m r w in (r1, w1)
  | CallUpdateRoutingTable e s =>
      let '(_, r1, w1) := UpdateRoutingTable e s r w in (r1, w1)
  | CallSendMessage rnd rc rt p d =>
      let '(_, r1, w1) := SendMessage rnd rc rt p d r w in (r1, w1)
  | CallClose => Close r w
  | CallDisconnectReceptorNetwork => DisconnectReceptorNetwork r w
  end.

Fixpoint after_all (cs : list call) (r : ReceptorService) (w : World)
  : ReceptorService * World :=
  match cs with
  | [] => (r, w)
  | c :: cs' => let '(r1, w1) := after c r w in after_all cs' r1 w1
  end.

(** The part of a session that identifies it and its transport. *)
Definition identity (r : ReceptorService)
  : string * string * chanref * chanref * chanref :=
  (Account r, NodeID r, SendChannel r, ControlChannel r, ErrorChannel r).

(** The channel behind a reference was closed. *)
Definition chan_closed (ch : chanref) (w : World) : bool :=
  match ch with
  | None => false
  | Some l => match dataChans w !! l with
              | None => false
              | Some c => closed c
              end
  end.

(** A world with one open data channel [0] that has room for [n] sends. *)
Definition world_with_room (n : nat) : World :=
  mk_World {[ 0%nat := mk_hchan false n [] ]} ∅ ∅ [].

(** A world whose data channel [0] was closed by its owner. *)
Definition world_closed_chan : World :=
  mk_World {[ 0%nat := mk_hchan true 1 [] ]} ∅ ∅ [].

(** The session of node [nodeX] of account [acct1], sending on channel [0]. *)
Definition session_nodeX : ReceptorService :=
  mk_ReceptorService "acct1" "nodeX" "" inil (Some 0%nat) (Some 1%nat) (Some 2%nat).

(** Which data channel objects exist and which of them are closed. *)
Definition chan_flags (w : World) : gmap nat bool := closed <$> dataChans w.

(** What no session method changes: the identity fields and channel
    references of the receiver, the set of channel objects with their
    closed flags, and the contents of the control and error channels. *)
Definition fixed_part (r : ReceptorService) (w : World) :=
  (identity r, chan_flags w, controlChans w, errorChans w).

End Controller.

Module Api.

(** The line feed that ends a format string. *)
Definition newline : string := String (Ascii.ascii_of_nat 10) EmptyString.

Definition CONNECTED_STATUS : string := "connected".
Definition DISCONNECTED_STATUS : string := "disconnected".

(** [net/http] status codes used by the handlers. *)
Definition StatusOK : Z := 200.
Definition StatusBadRequest : Z := 400.

Record connectionID : Type := mk_connectionID {
  Account : string;
  NodeID : string
}.

Record connectionStatusResponse : Type := mk_connectionStatusResponse {
  Status : string;
  Capabilities : iface
}.

Record connectionPingResponse : Type := mk_connectionPingResponse {
  PingStatus : string;
  Payload : iface
}.

(** [errorResponse] is declared elsewhere in package [api]; these are the
    three fields the composite literals of the handlers set. *)
Record errorResponse : Type := mk_errorResponse {
  Title : string;
  ErrStatus : Z;
  Detail : string
}.

(** The values the handlers pass to [writeJSONResponse]. *)
Inductive body : Type :=
| BError (e : errorResponse)
| BStatus (s : connectionStatusResponse)
| BPing (p : connectionPingResponse)
| BEmpty.

(** Members of the JSON object [encoding/json] writes for a
    [connectionStatusResponse]: the tag [capabilities,omitempty] drops the
    member when the interface value is nil. *)
Definition statusMembers (s : connectionStatusResponse) : list (string * iface) :=
  ("status", istr (Status s))
    :: (if is_nil (Capabilities s) then [] else [("capabilities", Capabilities s)]).

(** The methods of [controller.Receptor] the handlers call.  A client is a
    handle [rid] plus what its two queries answer; the context argument
    (deadline, cancellation) is part of those answers. *)
Record Receptor : Type := mk_Receptor {
  rid : nat;
  getCapabilities : iface * error;
  ping : string -> string -> list string -> iface * error
}.

(** A method invocation on a client, as the handlers make them. *)
Inductive invocation : Type :=
| InvClose (client : nat)
| InvGetCapabilities (client : nat)
| InvPing (client : nat) (account recipient : string) (route : list string).

Inductive level : Type := Info | Error.

(** A [logrus] entry: level, the fields of the request logger (plus those
    added at the call), and the formatted message. *)
Record entry : Type := mk_entry {
  lvl : level;
  fields : list (string * string);
  message : string
}.

(** The part of an [http.Request] the handlers read: the principal's
    account, the request id, and what [decodeJSON] makes of the body (its
    error text, or the decoded [connectionID]). *)
Record request : Type := mk_request {
  principalAccount : string;
  requestId : string;
  decoded : string + connectionID
}.

Record World : Type := mk_World {
  connectionMgr : gmap string (gmap string Receptor);
  invoked : list invocation;
  logged : list entry;
  written : list (Z * body)
}.

(** Handlers thread the world. *)
Definition M (A : Type) : Type := World -> A * World.

#[export] Instance M_ret : MRet M := fun A a w => (a, w).

#[export] Instance M_bind : MBind M :=
  fun A B k m w => let '(a, w1) := m w in k a w1.

Definition ret {A : Type} (a : A) : M A := mret a.

(** Modelled from the spec: the point lookup of the
    [controller.ConnectionLocator] (its implementation is not part of these
    sources) on the two-level index tenant -> node -> session; nil when
    there is no entry. *)
Definition lookupConnection (index : gmap string (gmap string Receptor))
    (account node_id : string) : option Receptor :=
  index !! account ≫= (.!! node_id).

(** [s.connectionMgr.GetConnection(account, nodeID)] *)
Definition GetConnection (account node_id : string) : M (option Receptor) :=
  fun w => (lookupConnection (connectionMgr w) account node_id, w).

Definition invoke (i : invocation) : M unit :=
  fun w => (tt, mk_World (connectionMgr w) (invoked w ++ [i]) (logged w) (written w)).

Definition emit (e : entry) : M unit :=
  fun w => (tt, mk_World (connectionMgr w) (invoked w) (logged w ++ [e]) (written w)).

(** [writeJSONResponse(w, status, payload)] *)
Definition writeJSONResponse (status : Z) (b : body) : M unit :=
  fun w => (tt, mk_World (connectionMgr w) (invoked w) (logged w)
                  (written w ++ [(status, b)])).

(** [client.Close(ctx)] *)
Definition Close (c : Receptor) : M unit := invoke (InvClose (rid c)).

(** [client.GetCapabilities(ctx)] *)
Definition GetCapabilities (c : Receptor) : M (iface * error) :=
  invoke (InvGetCapabilities (rid c)) ;; ret (getCapabilities c).

(** [client.Ping(ctx, account, recipient, route)] *)
Definition Ping (c : Receptor) (account recipient : string) (route : list string)
  : M (iface * error) :=
  invoke (InvPing (rid c) account recipient route) ;; ret (ping c account recipient route).

(** [logger.Log.WithFields(...)] at the top of every handler. *)
Definition requestFields (req : request) : list (string * string) :=
  [("account", principalAccount req); ("request_id", requestId req)].

Definition unprocessable (detail : string) : M unit :=
  let errorResponse :=
    mk_errorResponse "Unable to process json input" StatusBadRequest detail in
  writeJSONResponse (ErrStatus errorResponse) (BError errorResponse).

Definition handleDisconnect (req : request) : M unit :=
  let logger := requestFields req in
  match decoded req with
  | inl err => unprocessable err
  | inr connID =>
      client ← GetConnection (Account connID) (NodeID connID);
      match client with
      | None =>
          let errMsg := "No connection found for node (" +:+ Account connID
                          +:+ ":" +:+ NodeID connID +:+ ")" in
          emit (mk_entry Info logger errMsg) ;;
          let errorResponse := mk_errorResponse errMsg StatusBadRequest errMsg in
          writeJSONResponse (ErrStatus errorResponse) (BError errorResponse)
      | Some client =>
          emit (mk_entry Info logger
                  ("Attempting to disconnect account:" +:+ Account connID
                     +:+ " - node id:" +:+ NodeID connID)) ;;
          Close client ;;
          writeJSONResponse StatusOK BEmpty
      end
  end.

Definition handleConnectionStatus (req : request) : M unit :=
  let logger := requestFields req in
  match decoded req with
  | inl err => unprocessable err
  | inr connID =>
      emit (mk_entry Info logger
              ("Checking connection status for account:" +:+ Account connID
                 +:+ " - node id:" +:+ NodeID connID)) ;;
      client ← GetConnection (Account connID) (NodeID connID);
      connectionStatus ←
        match client with
        | Some client =>
            '(capabilities, err) ← GetCapabilities client;
            match err with
            | Some e =>
                emit (mk_entry Error (logger ++ [("error", e)])
                        ("Unable to retrieve the capabilities of node "
                           +:+ NodeID connID))
            | None => ret tt
            end ;;
            ret (mk_connectionStatusResponse CONNECTED_STATUS capabilities)
        | None => ret (mk_connectionStatusResponse DISCONNECTED_STATUS inil)
        end;
      emit (mk_entry Info logger
              ("Connection status for account:" +:+ Account connID
                 +:+ " - node id:" +:+ NodeID connID +:+ " => "
                 +:+ Status connectionStatus +:+ newline)) ;;
      writeJSONResponse StatusOK (BStatus connectionStatus)
  end.

Definition handleConnectionPing (req : request) : M unit :=
  let logger := requestFields req in
  match decoded req with
  | inl err => unprocessable err
  | inr connID =>
      emit (mk_entry Info logger
              ("Submitting ping for account:" +:+ Account connID
                 +:+ " - node id:" +:+ NodeID connID)) ;;
      let pingResponse := mk_connectionPingResponse DISCONNECTED_STATUS inil in
      client ← GetConnection (Account connID) (NodeID connID);
      match client with
      | None => writeJSONResponse StatusOK (BPing pingResponse)
      | Some client =>
          '(payload, err) ← Ping client (Account connID) (NodeID connID)
                               [NodeID connID];
          let pingResponse := mk_connectionPingResponse CONNECTED_STATUS payload in
          match err with
          | Some e =>
              let errorResponse := mk_errorResponse "Ping failed" StatusBadRequest e in
              writeJSONResponse (ErrStatus errorResponse) (BError errorResponse)
          | None => writeJSONResponse StatusOK (BPing pingResponse)
          end
      end
  end.

(** The written object has a member named [k]. *)
Definition has_member (k : string) (members : list (string * iface)) : bool :=
  existsb (fun m => bool_decide (m.1 = k)) members.

(** The registry's answer for a connection id. *)
Definition located (connID : connectionID) (w : World) : option Receptor :=
  lookupConnection (connectionMgr w) (Account connID) (NodeID connID).

(** A client that answers both queries. *)
Definition client_ok : Receptor :=
  mk_Receptor 1 (iobj [("max_work_threads", "12")], None)
    (fun _ _ _ => (istr "pong", None)).

(** A client whose queries fail, the capability query with a partial value. *)
Definition client_failing : Receptor :=
  mk_Receptor 2 (istr "stale", Some "context deadline exceeded")
    (fun _ _ _ => (inil, Some "context deadline exceeded")).

(** A client whose capability query fails with a nil value. *)
Definition client_silent : Receptor :=
  mk_Receptor 3 (inil, Some "context deadline exceeded")
    (fun _ _ _ => (inil, Some "context deadline exceeded")).

Definition world_of (c : Receptor) : World :=
  mk_World {[ "acct1" := {[ "nodeX" := c ]} ]} [] [] [].

Definition world_empty : World := mk_World ∅ [] [] [].

Definition request_nodeX : request :=
  mk_request "acct1" "req-1" (inr (mk_connectionID "acct1" "nodeX")).

Definition disconnected_report : Z * body :=
  (StatusOK, BPing (mk_connectionPingResponse DISCONNECTED_STATUS inil)).

End Api.

(** ** Sequences of session calls *)

Module Dispatch.
Import Controller.

(** The job a call asks the session to dispatch: the [Message] that
    [SendMessage] builds once [uuid.NewRandom] succeeded. *)
Definition requested (c : call) : list Message :=
  match c with
  | CallSendMessage (jobID, None) recipient route payload directive =>
      [mk_Message jobID recipient route payload directive]
  | _ => []
  end.

Definition requested_all (cs : list call) : list Message :=
  flat_map requested cs.

(** How many sends the channel behind a reference accepts before the next
    one parks or panics. *)
Definition sendable (ch : chanref) (w : World) : nat :=
  match ch with
  | None => 0
  | Some l => match dataChans w !! l with
              | None => 0
              | Some c => if closed c then 0 else room c
              end
  end.

(** The lines a call writes to the standard logger. *)
Definition lines (c : call) : list string :=
  match c with
  | CallRegisterConnection p _ =>
      [Printf_entry ("Registering a connection to node " +:+ p)]
  | CallUpdateRoutingTable e s => ["edges: " +:+ e; "seen: " +:+ s]
  | CallSendMessage (_, Some _) _ _ _ _ =>
      ["Unable to generate UUID for routing the job...cannot proceed"]
  | CallSendMessage (_, None) _ _ _ _ => []
  | CallClose => []
  | CallDisconnectReceptorNetwork => []
  end.

(** Calls of the two methods with an empty body. *)
Definition is_teardown (c : call) : bool :=
  match c with
  | CallClose | CallDisconnectReceptorNetwork => true
  | _ => false
  end.

Definition is_routing_update (c : call) : bool :=
  match c with
  | CallUpdateRoutingTable _ _ => true
  | _ => false
  end.

(** The arguments of the last [RegisterConnection] among the calls. *)
Fixpoint last_registration (cs : list call) : option (string * iface) :=
  match cs with
  | [] => None
  | c :: cs' =>
      match last_registration cs' with
      | Some reg => Some reg
      | None => match c with
                | CallRegisterConnection p m => Some (p, m)
                | _ => None
                end
      end
  end.

(** Three jobs for [nodeX], the second without an identifier. *)
Definition three_sends : list call :=
  [CallSendMessage (1%N, None) "nodeX" [] inil "run";
   CallSendMessage (0%N, Some "EOF") "nodeX" [] inil "run";
   CallClose;
   CallSendMessage (2%N, None) "nodeY" ["nodeX"] (istr "p") "ping"].

End Dispatch.

(** ** Sequences of management requests *)

Module Serving.
Import Api.

(** The three POST endpoints registered by [Routes] under [/connection]. *)
Inductive endpoint : Type :=
| Disconnect
| ConnectionStatus
| ConnectionPing.

Definition handle (e : endpoint) (req : request) : M unit :=
  match e with
  | Disconnect => handleDisconnect req
  | ConnectionStatus => handleConnectionStatus req
  | ConnectionPing => handleConnectionPing req
  end.

(** Requests served one after the other. *)
Fixpoint serve (rs : list (endpoint * request)) (w : World) : World :=
  match rs with
  | [] => w
  | (e, req) :: rs' => serve rs' (handle e req w).2
  end.

(** The response a handler writes. *)
Definition answer (e : endpoint) (req : request) (w : World)
  : option (Z * body) :=
  last (written (handle e req w).2).

(** The code on the wire matches the body: an error body goes out with
    400 and says 400 itself, every other body goes out with 200. *)
Definition coherent (resp : Z * body) : Prop :=
  match resp.2 with
  | BError e => resp.1 = StatusBadRequest /\ ErrStatus e = StatusBadRequest
  | _ => resp.1 = StatusOK
  end.

Definition is_close (i : invocation) : bool :=
  match i with InvClose _ => true | _ => false end.

Definition is_disconnect (e : endpoint) : bool :=
  match e with Disconnect => true | _ => false end.

(** A request whose body [decodeJSON] rejects. *)
Definition request_garbled : request :=
  mk_request "acct1" "req-2" (inl "unexpected end of JSON input").

End Serving.

(** ** The connection listings *)

Module Listing.
Import Api.

(** The element type of the listing of all connections. *)
Record ConnectionsPerAccount : Type := mk_ConnectionsPerAccount {
  AccountNumber : string;
  Connections : list string
}.

(** The two [Response] structs of the listing handlers. *)
Inductive response : Type :=
| AllConnections (connections : list ConnectionsPerAccount)
| AccountConnections (connections : list string).

(** The part of the request the listing handlers read; [accountId] is the
    route variable [id]. *)
Record request : Type := mk_request {
  principalAccount : string;
  requestId : string;
  accountId : string
}.

(** The registry, the debug-level log and the responses written. *)
Record World : Type := mk_World {
  connectionMgr : gmap string (gmap string Receptor);
  debugged : list (list (string * string) * string);
  written : list (Z * response)
}.

(** Modelled from the spec: [GetAllConnections] of the
    [controller.ConnectionLocator], the whole two-level index. *)
Definition GetAllConnections (w : World) : gmap string (gmap string Receptor) :=
  connectionMgr w.

(** Modelled from the spec: [GetConnectionsByAccount] of the
    [controller.ConnectionLocator], the sessions of one tenant, empty when
    the tenant is unknown. *)
Definition GetConnectionsByAccount (account : string) (w : World)
  : gmap string Receptor :=
  default ∅ (connectionMgr w !! account).

(** [l[i] = f(l[i])] on a slice; [None] is the index-out-of-range panic. *)
Definition modify {A : Type} (i : nat) (f : A -> option A) (l : list A)
  : option (list A) :=
  x ← l !! i; y ← f x; Some (<[i := y]> l).

(** [l[i] = x] *)
Definition store {A : Type} (i : nat) (x : A) (l : list A) : option (list A) :=
  modify i (fun _ => Some x) l.

(** [for conn := range m { connections[connCount] = conn; connCount++ }],
    over the keys in the order the range yields them. *)
Fixpoint fillNodes (keys : list string) (connCount : nat)
    (connections : list string) : option (list string) :=
  match keys with
  | [] => Some connections
  | conn :: keys' =>
      connections' ← store connCount conn connections;
      fillNodes keys' (S connCount) connections'
  end.

(** The inner loop of the full listing, writing
    [connections[accountCount].Connections[nodeCount] = k]. *)
Fixpoint fillAccountNodes (keys : list string) (accountCount nodeCount : nat)
    (connections : list ConnectionsPerAccount)
  : option (list ConnectionsPerAccount) :=
  match keys with
  | [] => Some connections
  | k :: keys' =>
      connections' ←
        modify accountCount
          (fun e => nodes ← store nodeCount k (Connections e);
                    Some (mk_ConnectionsPerAccount (AccountNumber e) nodes))
          connections;
      fillAccountNodes keys' accountCount (S nodeCount) connections'
  end.

(** The outer loop of the full listing.  [rangeNodes] gives, for an
    account, the order in which the range over its sessions yields them. *)
Fixpoint fillAccounts
    (rangeNodes : string -> gmap string Receptor -> list (string * Receptor))
    (items : list (string * gmap string Receptor)) (accountCount : nat)
    (connections : list ConnectionsPerAccount)
  : option (list ConnectionsPerAccount) :=
  match items with
  | [] => Some connections
  | (key, value) :: items' =>
      c1 ← modify accountCount
             (fun e => Some (mk_ConnectionsPerAccount key (Connections e)))
             connections;
      c2 ← modify accountCount
             (fun e => Some (mk_ConnectionsPerAccount (AccountNumber e)
                               (replicate (size value) "")))
             c1;
      c3 ← fillAccountNodes (rangeNodes key value).*1 accountCount 0 c2;
      fillAccounts rangeNodes items' (S accountCount) c3
  end.

Definition requestFields (req : request) : list (string * string) :=
  [("account", principalAccount req); ("request_id", requestId req)].

Definition debug (fields : list (string * string)) (msg : string) (w : World)
  : World :=
  mk_World (connectionMgr w) (debugged w ++ [(fields, msg)]) (written w).

Definition writeJSONResponse (status : Z) (b : response) (w : World) : World :=
  mk_World (connectionMgr w) (debugged w) (written w ++ [(status, b)]).

(** [handleConnectionListing]; [rangeAccounts] is the order in which the
    range over the index yields the accounts.  [None] is a panic. *)
Definition handleConnectionListing
    (rangeAccounts : gmap string (gmap string Receptor)
                     -> list (string * gmap string Receptor))
    (rangeNodes : string -> gmap string Receptor -> list (string * Receptor))
    (req : request) (w : World) : option World :=
  let w1 := debug (requestFields req) "Getting connection list" w in
  let allReceptorConnections := GetAllConnections w1 in
  let connections :=
    replicate (size allReceptorConnections) (mk_ConnectionsPerAccount "" []) in
  connections' ← fillAccounts rangeNodes (rangeAccounts allReceptorConnections)
                   0 connections;
  Some (writeJSONResponse StatusOK (AllConnections connections') w1).

(** [handleConnectionListingByAccount] *)
Definition handleConnectionListingByAccount
    (rangeNodes : string -> gmap string Receptor -> list (string * Receptor))
    (req : request) (w : World) : option World :=
  let w1 := debug (requestFields req)
              ("Getting connections for " +:+ accountId req) w in
  let accountConnections := GetConnectionsByAccount (accountId req) w1 in
  let connections := replicate (size accountConnections) "" in
  connections' ← fillNodes (rangeNodes (accountId req) accountConnections).*1
                   0 connections;
  Some (writeJSONResponse StatusOK (AccountConnections connections') w1).

(** The listing entry of one account, as the two loops fill it. *)
Definition entry_of
    (rangeNodes : string -> gmap string Receptor -> list (string * Receptor))
    (item : string * gmap string Receptor) : ConnectionsPerAccount :=
  mk_ConnectionsPerAccount item.1 (rangeNodes item.1 item.2).*1.

(** The ranges yield every entry of the map once, in some order. *)
Definition range_order
    (rangeAccounts : gmap string (gmap string Receptor)
                     -> list (string * gmap string Receptor))
    (rangeNodes : string -> gmap string Receptor -> list (string * Receptor))
  : Prop :=
  (forall m, rangeAccounts m ≡ₚ map_to_list m)
  /\ (forall a m, rangeNodes a m ≡ₚ map_to_list m).

(** A node is listed under an account. *)
Definition listed (account node_id : string)
    (connections : list ConnectionsPerAccount) : Prop :=
  exists c, c ∈ connections /\ AccountNumber c = account
            /\ node_id ∈ Connections c.

(** Two nodes of [acct1] and one of [acct2]. *)
Definition world_three : World :=
  mk_World {[ "acct1" := {[ "nodeX" := client_ok; "nodeY" := client_silent ]};
              "acct2" := {[ "nodeZ" := client_failing ]} ]} [] [].

Definition request_acct (a : string) : request := mk_request "acct1" "req-3" a.

End Listing.

(** * Properties of the session object ([receptor.go]) *)

Module ControllerFacts.
Import Controller.

Lemma outbound_set_same (l : nat) (c : hchan Message) (w : World) :
  outbound (Some l) (set_dataChans (<[l := c]> (dataChans w)) w) = sent c.
Proof. unfold outbound; simpl. by rewrite lookup_insert_eq. Qed.

Lemma outbound_set_other (l : nat) (c : hchan Message) (ch : chanref) (w : World) :
  ch ≠ Some l ->
  outbound ch (set_dataChans (<[l := c]> (dataChans w)) w) = outbound ch w.
Proof.
  intros Hne. destruct ch as [k|]; [|done].
  unfold outbound; simpl. rewrite lookup_insert_ne; [done|congruence].
Qed.

(** A send that completes appends the value to the channel behind the
    reference and touches nothing else. *)
Lemma send_on_returns (ch : chanref) (msg : Message) (w w' : World) (u : unit) :
  send_on ch msg w = (Returns u, w') ->
  can_send ch w = true
  /\ outbound ch w' = outbound ch w ++ [msg]
  /\ (forall ch', ch' ≠ ch -> outbound ch' w' = outbound ch' w)
  /\ controlChans w' = controlChans w
  /\ errorChans w' = errorChans w
  /\ logs w' = logs w.
Proof.
  unfold send_on, can_send. destruct ch as [l|]; [|discriminate].
  destruct (dataChans w !! l) as [c|] eqn:Hc; [|discriminate].
  unfold chansend. destruct (closed c) eqn:Hcl; [discriminate|].
  destruct (room c) as [|n] eqn:Hroom; [discriminate|].
  intros [= <- <-]. split; [reflexivity|]. split; [|split].
  - rewrite outbound_set_same. unfold outbound. by rewrite Hc.
  - intros ch' Hne. by apply outbound_set_other.
  - repeat split.
Qed.

(** A send that parks or panics changes nothing. *)
Lemma send_on_stuck (ch : chanref) (msg : Message) (w w' : World) (o : outcome unit) :
  send_on ch msg w = (o, w') ->
  (forall u, o ≠ Returns u) ->
  w' = w
  /\ can_send ch w = false
  /\ (o = Blocks /\ chan_closed ch w = false
      \/ o = Panics "send on closed channel" /\ chan_closed ch w = true).
Proof.
  unfold send_on, can_send, chan_closed. destruct ch as [l|].
  - destruct (dataChans w !! l) as [c|] eqn:Hc.
    + unfold chansend. destruct (closed c) eqn:Hcl.
      * intros [= <- <-] _. auto.
      * destruct (room c) as [|n] eqn:Hroom.
        -- intros [= <- <-] _. auto.
        -- intros [= <- <-] Hn. by destruct (Hn tt).
    + intros [= <- <-] _. auto.
  - intros [= <- <-] _. auto.
Qed.

(** The three ways [SendMessage] ends once an identifier was generated. *)
Lemma SendMessage_generated_cases (jobID : UUID) (recipient : string)
    (route : list string) (payload : iface) (directive : string)
    (r : ReceptorService) (w : World) :
  let msg := mk_Message jobID recipient route payload directive in
  (exists w', send_on (SendChannel r) msg w = (Returns tt, w')
     /\ SendMessage (jobID, None) recipient route payload directive r w
        = (Returns (Some jobID, None), r, w'))
  \/ (exists o, (forall u, o ≠ Returns u)
        /\ send_on (SendChannel r) msg w = (o, w)
        /\ SendMessage (jobID, None) recipient route payload directive r w
           = (match o with
              | Returns _ => Blocks
              | Blocks => Blocks
              | Panics why => Panics why
              end, r, w)).
Proof.
  intros msg. unfold SendMessage. fold msg.
  destruct (send_on (SendChannel r) msg w) as [o w'] eqn:Hs.
  destruct o as [[]| |why].
  - left. eauto.
  - right. exists Blocks. destruct (send_on_stuck _ _ _ _ _ Hs) as (-> & _); [done|].
    repeat split; done.
  - right. exists (Panics why).
    destruct (send_on_stuck _ _ _ _ _ Hs) as (-> & _); [done|].
    repeat split; done.
Qed.

(** The scenario of the dispatch contract: one job for [nodeX]. *)
Example SendMessage_nodeX_run :
  SendMessage (7%N, None) "nodeX" [] (istr "payload") "run"
    session_nodeX (world_with_room 1)
  = (Returns (Some 7%N, None), session_nodeX,
     mk_World {[ 0%nat := mk_hchan false 0
                   [mk_Message 7%N "nodeX" [] (istr "payload") "run"] ]} ∅ ∅ []).
Proof. reflexivity. Qed.

(** A generated identifier and a full outbound channel: the call parks,
    nothing is handed over and no identifier comes back; so it is not the
    case that every call with a generated identifier enqueues its job. *)
Lemma SendMessage_full_channel_counterexample :
  SendMessage (7%N, None) "nodeX" [] (istr "payload") "run"
    session_nodeX (world_with_room 0)
  = (Blocks, session_nodeX, world_with_room 0)
  /\ outbound (SendChannel session_nodeX) (world_with_room 0) = []
  /\ ~ (forall (jobID : UUID) (recipient : string) (route : list string)
           (payload : iface) (directive : string) (r : ReceptorService)
           (w : World),
          exists w',
            SendMessage (jobID, None) recipient route payload directive r w
            = (Returns (Some jobID, None), r, w')
            /\ outbound (SendChannel r) w'
               = outbound (SendChannel r) w
                   ++ [mk_Message jobID recipient route payload directive]).
Proof.
  split; [reflexivity|]. split; [reflexivity|].
  intros H.
  destruct (H 7%N "nodeX" [] (istr "payload") "run" session_nodeX
              (world_with_room 0)) as (w' & Hs & _).
  vm_compute in Hs. discriminate.
Qed.

(** C1 (as the code has it). Whenever identifier generation succeeds, [SendMessage] returns
    exactly when the send on the session's outbound data channel can
    complete; a call that returns has handed exactly one [Message] to that
    channel (and none to any other), returns the non-nil identifier that
    is the message's [MessageID] together with a nil error, and the
    message carries the recipient, route, payload and directive it was
    given.  A call that does not return an identifier has enqueued nothing. *)
Theorem SendMessage_enqueues_exactly_once (jobID : UUID) (recipient : string)
    (route : list string) (payload : iface) (directive : string)
    (r : ReceptorService) (w : World) :
  let '(res, r', w') :=
    SendMessage (jobID, None) recipient route payload directive r w in
  r' = r
  /\ res = (if can_send (SendChannel r) w then Returns (Some jobID, None)
            else if chan_closed (SendChannel r) w
                 then Panics "send on closed channel" else Blocks)
  /\ match res with
     | Returns (id, err) =>
         err = None
         /\ (exists m : Message,
               outbound (SendChannel r) w' = outbound (SendChannel r) w ++ [m]
               /\ id = Some (MessageID m)
               /\ Recipient m = recipient
               /\ RouteList m = route
               /\ Payload m = payload
               /\ Directive m = directive)
         /\ (forall ch, ch ≠ SendChannel r -> outbound ch w' = outbound ch w)
     | Blocks | Panics _ => w' = w
     end.
Proof.
  destruct (SendMessage_generated_cases jobID recipient route payload directive r w)
    as [(w' & Hs & ->) | (o & Hno & Hs & ->)].
  - destruct (send_on_returns _ _ _ _ _ Hs) as (Hcan & Hout & Hoth & _).
    rewrite Hcan. repeat split; [|done].
    eexists. split; [exact Hout|]. repeat split.
  - destruct (send_on_stuck _ _ _ _ _ Hs Hno) as (_ & Hcan & Hkind).
    rewrite Hcan. split; [done|].
    destruct Hkind as [[-> ->] | [-> ->]]; done.
Qed.

(** A send on a channel its owner closed panics. *)
Example SendMessage_on_closed_channel :
  (SendMessage (7%N, None) "nodeX" [] inil "run" session_nodeX
     world_closed_chan).1.1
  = Panics "send on closed channel".
Proof. reflexivity. Qed.

(** A session whose [Close] was called, with a full outbound channel: the
    send parks, no error comes back. *)
Lemma SendMessage_closed_session_counterexample :
  let '(r1, w1) := Close session_nodeX (world_with_room 0) in
  (SendMessage (7%N, None) "nodeX" [] inil "run" r1 w1).1.1 = Blocks
  /\ ~ (exists (id : option UUID) (e : string),
          (SendMessage (7%N, None) "nodeX" [] inil "run" r1 w1).1.1
          = Returns (id, Some e)).
Proof.
  simpl. split; [reflexivity|].
  intros (id & e & H). vm_compute in H. discriminate.
Qed.

(** C2 (as the code has it). [Close] changes nothing, so [SendMessage]
    after [Close] is [SendMessage] without it.  With a generated
    identifier it never returns an error value: it returns the identifier
    when the outbound channel can take the message, panics when the Go
    channel itself was closed, and parks the caller otherwise. *)
Theorem SendMessage_after_Close (newRandom : UUID * error) (jobID : UUID)
    (recipient : string) (route : list string) (payload : iface)
    (directive : string) (r : ReceptorService) (w : World) :
  let '(r1, w1) := Close r w in
  SendMessage newRandom recipient route payload directive r1 w1
  = SendMessage newRandom recipient route payload directive r w
  /\ (SendMessage (jobID, None) recipient route payload directive r1 w1).1.1
     = (if can_send (SendChannel r) w then Returns (Some jobID, None)
        else if chan_closed (SendChannel r) w
             then Panics "send on closed channel" else Blocks)
  /\ (forall (id : option UUID) (e : string),
        (SendMessage (jobID, None) recipient route payload directive r1 w1).1.1
        ≠ Returns (id, Some e)).
Proof.
  unfold Close. cbv beta iota. split; [done|].
  destruct (SendMessage_generated_cases jobID recipient route payload directive r w)
    as [(w' & Hs & ->) | (o & Hno & Hs & ->)]; simpl.
  - destruct (send_on_returns _ _ _ _ _ Hs) as (-> & _). split; [done|]. congruence.
  - destruct (send_on_stuck _ _ _ _ _ Hs Hno) as (_ & -> & [[-> ->] | [-> ->]]);
      split; congruence.
Qed.

(** Two different topology announcements leave the same session behind. *)
Lemma UpdateRoutingTable_counterexample :
  (UpdateRoutingTable "nodeA" "nodeB" session_nodeX (world_with_room 1)).1.2
    = session_nodeX
  /\ (UpdateRoutingTable "nodeC" "" session_nodeX (world_with_room 1)).1.2
    = session_nodeX
  /\ ~ (exists snapshot : ReceptorService -> string * string,
          forall (edges seen : string) (r : ReceptorService) (w : World),
            snapshot (UpdateRoutingTable edges seen r w).1.2 = (edges, seen)).
Proof.
  split; [reflexivity|]. split; [reflexivity|].
  intros (snapshot & H).
  pose proof (H "nodeA" "nodeB" session_nodeX (world_with_room 1)) as Ha.
  pose proof (H "nodeC" "" session_nodeX (world_with_room 1)) as Hc.
  simpl in Ha, Hc. congruence.
Qed.

(** C3 (as the code has it). [UpdateRoutingTable] returns nil for every
    input, writes the two values to the log, and leaves the session and
    every channel as they were: nothing is stored. *)
Theorem UpdateRoutingTable_logs_only (edges seen : string)
    (r : ReceptorService) (w : World) :
  let '(err, r', w') := UpdateRoutingTable edges seen r w in
  err = None
  /\ r' = r
  /\ dataChans w' = dataChans w
  /\ controlChans w' = controlChans w
  /\ errorChans w' = errorChans w
  /\ logs w' = logs w ++ ["edges: " +:+ edges; "seen: " +:+ seen].
Proof.
  simpl. repeat split. by rewrite <- app_assoc.
Qed.

(** C4. When [uuid.NewRandom] returns an error, [SendMessage] returns a
    nil identifier and that error, hands nothing to any channel, and
    leaves the session and the channel stores as they were; it only writes
    one line to the log. *)
Theorem SendMessage_generation_failure (jobID : UUID) (e : string)
    (recipient : string) (route : list string) (payload : iface)
    (directive : string) (r : ReceptorService) (w : World) :
  let '(res, r', w') :=
    SendMessage (jobID, Some e) recipient route payload directive r w in
  res = Returns (None, Some e)
  /\ r' = r
  /\ dataChans w' = dataChans w
  /\ controlChans w' = controlChans w
  /\ errorChans w' = errorChans w
  /\ (forall ch, outbound ch w' = outbound ch w)
  /\ logs w' = logs w
       ++ ["Unable to generate UUID for routing the job...cannot proceed"].
Proof.
  simpl. repeat split.
Qed.

(** C8. [RegisterConnection] returns nil for every input, sets the peer
    identity and the metadata to the arguments whatever they were before,
    and leaves the other fields alone. *)
Theorem RegisterConnection_records (peerNodeID : string) (metadata : iface)
    (r : ReceptorService) (w : World) :
  let '(err, r', w') := RegisterConnection peerNodeID metadata r w in
  err = None
  /\ PeerNodeID r' = peerNodeID
  /\ Metadata r' = metadata
  /\ identity r' = identity r
  /\ dataChans w' = dataChans w
  /\ controlChans w' = controlChans w
  /\ errorChans w' = errorChans w.
Proof.
  simpl. repeat split.
Qed.

Example RegisterConnection_overwrites :
  let r := mk_ReceptorService "acct1" "nodeX" "nodeA" (istr "old")
             (Some 0%nat) (Some 1%nat) (Some 2%nat) in
  (RegisterConnection "nodeB" (iobj [("worker", "v2")]) r (world_with_room 1)).1
  = (None, mk_ReceptorService "acct1" "nodeX" "nodeB" (iobj [("worker", "v2")])
             (Some 0%nat) (Some 1%nat) (Some 2%nat)).
Proof. reflexivity. Qed.

Lemma send_on_fixed (ch : chanref) (msg : Message) (r : ReceptorService)
    (w w' : World) (o : outcome unit) :
  send_on ch msg w = (o, w') -> fixed_part r w' = fixed_part r w.
Proof.
  unfold send_on. destruct ch as [l|]; [|by intros [= <- <-]].
  destruct (dataChans w !! l) as [c|] eqn:Hc; [|by intros [= <- <-]].
  unfold chansend. destruct (closed c) eqn:Hcl; [by intros [= <- <-]|].
  destruct (room c) as [|n]; [by intros [= <- <-]|].
  intros [= <- <-]. unfold fixed_part, chan_flags; simpl.
  rewrite fmap_insert; simpl. rewrite insert_id; [done|].
  rewrite lookup_fmap, Hc; simpl. by rewrite Hcl.
Qed.

Lemma after_fixed (c : call) (r : ReceptorService) (w : World) :
  fixed_part (after c r w).1 (after c r w).2 = fixed_part r w.
Proof.
  destruct c as [p m | e s | [jobID [e|]] rc rt p d | | ]; try reflexivity.
  simpl.
  destruct (send_on (SendChannel r) (mk_Message jobID rc rt p d) w)
    as [o w'] eqn:Hs.
  pose proof (send_on_fixed _ _ r _ _ _ Hs) as Hfix.
  destruct o; exact Hfix.
Qed.

(** C9. Whatever session methods are called, in whatever order and with
    whatever arguments and outcomes, the session keeps its account and
    node identity and its three channel references; no channel object is
    closed, added or dropped, and the control and error channels receive
    nothing. *)
Theorem session_identity_and_channels_fixed (cs : list call)
    (r : ReceptorService) (w : World) :
  Account (after_all cs r w).1 = Account r
  /\ NodeID (after_all cs r w).1 = NodeID r
  /\ SendChannel (after_all cs r w).1 = SendChannel r
  /\ ControlChannel (after_all cs r w).1 = ControlChannel r
  /\ ErrorChannel (after_all cs r w).1 = ErrorChannel r
  /\ chan_flags (after_all cs r w).2 = chan_flags w
  /\ controlChans (after_all cs r w).2 = controlChans w
  /\ errorChans (after_all cs r w).2 = errorChans w.
Proof.
  assert (fixed_part (after_all cs r w).1 (after_all cs r w).2 = fixed_part r w)
    as Hfix.
  { revert r w. induction cs as [|c cs IH]; intros r w; [reflexivity|].
    simpl. pose proof (after_fixed c r w) as Hc.
    destruct (after c r w) as [r1 w1]. rewrite IH. exact Hc. }
  unfold fixed_part, identity in Hfix.
  injection Hfix as Ha Hn Hs Hc He Hf Hcc Hec. repeat split; assumption.
Qed.

Example SendMessage_empty_recipient :
  SendMessage (9%N, None) "" [] inil "" session_nodeX (world_with_room 2)
  = (Returns (Some 9%N, None), session_nodeX,
     mk_World {[ 0%nat := mk_hchan false 1 [mk_Message 9%N "" [] inil ""] ]}
       ∅ ∅ []).
Proof. reflexivity. Qed.



End ControllerFacts.

(** * Properties of the management handlers ([management.go]) *)

Module ApiFacts.
Import Api.

(** Unfold one handler down to the world it leaves. *)
Ltac run_handler :=
  unfold located in *;
  unfold handleDisconnect, handleConnectionStatus, handleConnectionPing,
    unprocessable, GetCapabilities, Ping, Close, GetConnection, invoke, emit,
    writeJSONResponse, ret, mbind, mret, M_bind, M_ret;
  cbn [connectionMgr invoked logged written fst snd].

(** The handlers only read the registry. *)
Lemma handlers_keep_registry (req : request) (w : World) :
  connectionMgr (handleDisconnect req w).2 = connectionMgr w
  /\ connectionMgr (handleConnectionStatus req w).2 = connectionMgr w
  /\ connectionMgr (handleConnectionPing req w).2 = connectionMgr w.
Proof.
  run_handler.
  destruct (decoded req) as [err|connID]; [simpl; repeat split|].
  destruct (lookupConnection (connectionMgr w) (Account connID) (NodeID connID))
    as [c|]; [|simpl; repeat split].
  destruct (getCapabilities c) as [caps [e|]];
  destruct (ping c (Account connID) (NodeID connID) [NodeID connID]) as [p [e'|]];
  simpl; repeat split.
Qed.

(** A capability query that fails with a value: the value is written. *)
Lemma handleConnectionStatus_counterexample :
  located (mk_connectionID "acct1" "nodeX") (world_of client_failing)
    = Some client_failing
  /\ getCapabilities client_failing
     = (istr "stale", Some "context deadline exceeded")
  /\ written (handleConnectionStatus request_nodeX (world_of client_failing)).2
     = [(StatusOK,
         BStatus (mk_connectionStatusResponse CONNECTED_STATUS (istr "stale")))]
  /\ statusMembers (mk_connectionStatusResponse CONNECTED_STATUS (istr "stale"))
     = [("status", istr "connected"); ("capabilities", istr "stale")].
Proof. repeat split. Qed.

(** C5 (as the code has it). A status request always answers 200.  With
    no session it reports [disconnected], asks no client, and writes no
    capabilities member.  With a session it reports [connected] and copies
    whatever value the capability query returned into the response, error
    or not; an error is logged at error level and does not change the
    status or the code.  The capabilities member is omitted exactly when
    the copied value is nil. *)
Theorem handleConnectionStatus_capabilities (req : request)
    (connID : connectionID) (w : World) :
  decoded req = inr connID ->
  let w' := (handleConnectionStatus req w).2 in
  let failure (e : string) :=
    mk_entry Error (requestFields req ++ [("error", e)])
      ("Unable to retrieve the capabilities of node " +:+ NodeID connID) in
  match located connID w with
  | None =>
      let resp := mk_connectionStatusResponse DISCONNECTED_STATUS inil in
      written w' = written w ++ [(StatusOK, BStatus resp)]
      /\ has_member "capabilities" (statusMembers resp) = false
      /\ invoked w' = invoked w
  | Some client =>
      let resp :=
        mk_connectionStatusResponse CONNECTED_STATUS (getCapabilities client).1 in
      written w' = written w ++ [(StatusOK, BStatus resp)]
      /\ has_member "capabilities" (statusMembers resp)
         = negb (is_nil (getCapabilities client).1)
      /\ invoked w' = invoked w ++ [InvGetCapabilities (rid client)]
      /\ logged w'
         = logged w
             ++ [mk_entry Info (requestFields req)
                   ("Checking connection status for account:"
                      +:+ Account connID +:+ " - node id:" +:+ NodeID connID)]
             ++ match (getCapabilities client).2 with
                | Some e => [failure e]
                | None => []
                end
             ++ [mk_entry Info (requestFields req)
                   ("Connection status for account:" +:+ Account connID
                      +:+ " - node id:" +:+ NodeID connID +:+ " => "
                      +:+ CONNECTED_STATUS +:+ newline)]
  end.
Proof.
  intros Hdec w' failure. subst w'. run_handler. rewrite Hdec.
  cbn [connectionMgr invoked logged written fst snd].
  destruct (lookupConnection (connectionMgr w) (Account connID) (NodeID connID))
    as [c|]; [|simpl; repeat split].
  destruct (getCapabilities c) as [caps [e|]]; simpl.
  - split; [done|]. split; [by destruct caps|]. split; [done|].
    rewrite <- !app_assoc. reflexivity.
  - split; [done|]. split; [by destruct caps|]. split; [done|].
    rewrite <- !app_assoc. reflexivity.
Qed.

(** The status theorem at a session whose capability query fails with a
    nil value, and at the empty registry. *)
Lemma handleConnectionStatus_capabilities_witness :
  (decoded request_nodeX = inr (mk_connectionID "acct1" "nodeX")
   /\ written (handleConnectionStatus request_nodeX (world_of client_silent)).2
      = [(StatusOK,
          BStatus (mk_connectionStatusResponse CONNECTED_STATUS inil))])
  /\ written (handleConnectionStatus request_nodeX world_empty).2
     = [(StatusOK,
         BStatus (mk_connectionStatusResponse DISCONNECTED_STATUS inil))].
Proof.
  split; [split; [reflexivity|]|].
  - exact (proj1 (handleConnectionStatus_capabilities request_nodeX
                    (mk_connectionID "acct1" "nodeX") (world_of client_silent)
                    eq_refl)).
  - exact (proj1 (handleConnectionStatus_capabilities request_nodeX
                    (mk_connectionID "acct1" "nodeX") world_empty eq_refl)).
Defined.

(** C6. A ping request with no session answers 200 with status
    [disconnected] and a nil payload, and calls no client.  With a session
    it calls [Ping] on it once, for the requested account and node, with
    the route list holding just that node; when [Ping] returns an error
    the answer is the 400 error response titled [Ping failed] carrying the
    error text, which is not the disconnected report; otherwise it is 200
    with status [connected] and the payload. *)
Theorem handleConnectionPing_reports (req : request) (connID : connectionID)
    (w : World) :
  decoded req = inr connID ->
  let w' := (handleConnectionPing req w).2 in
  match located connID w with
  | None =>
      written w' = written w ++ [disconnected_report]
      /\ invoked w' = invoked w
  | Some client =>
      invoked w'
      = invoked w ++ [InvPing (rid client) (Account connID) (NodeID connID)
                        [NodeID connID]]
      /\ match ping client (Account connID) (NodeID connID) [NodeID connID] with
         | (payload, None) =>
             written w'
             = written w
                 ++ [(StatusOK,
                      BPing (mk_connectionPingResponse CONNECTED_STATUS payload))]
         | (_, Some e) =>
             let failure :=
               (StatusBadRequest,
                BError (mk_errorResponse "Ping failed" StatusBadRequest e)) in
             written w' = written w ++ [failure]
             /\ failure ≠ disconnected_report
         end
  end.
Proof.
  intros Hdec w'. subst w'. run_handler. rewrite Hdec.
  cbn [connectionMgr invoked logged written fst snd].
  destruct (lookupConnection (connectionMgr w) (Account connID) (NodeID connID))
    as [c|]; [|simpl; repeat split].
  destruct (ping c (Account connID) (NodeID connID) [NodeID connID])
    as [payload [e|]]; simpl; repeat split.
  discriminate.
Qed.

(** The ping theorem at a session whose ping fails, at one that answers,
    and at the empty registry. *)
Lemma handleConnectionPing_reports_witness :
  (decoded request_nodeX = inr (mk_connectionID "acct1" "nodeX")
   /\ written (handleConnectionPing request_nodeX (world_of client_failing)).2
      = [(StatusBadRequest,
          BError (mk_errorResponse "Ping failed" StatusBadRequest
                    "context deadline exceeded"))])
  /\ invoked (handleConnectionPing request_nodeX (world_of client_ok)).2
     = [InvPing 1 "acct1" "nodeX" ["nodeX"]]
  /\ written (handleConnectionPing request_nodeX world_empty).2
     = [disconnected_report].
Proof.
  split; [split; [reflexivity|]|split].
  - exact (proj1 (proj2 (handleConnectionPing_reports request_nodeX
                           (mk_connectionID "acct1" "nodeX")
                           (world_of client_failing) eq_refl))).
  - exact (proj1 (handleConnectionPing_reports request_nodeX
                    (mk_connectionID "acct1" "nodeX") (world_of client_ok)
                    eq_refl)).
  - exact (proj1 (handleConnectionPing_reports request_nodeX
                    (mk_connectionID "acct1" "nodeX") world_empty eq_refl)).
Defined.

(** C7. A disconnect request with no session answers with the 400 error
    response [No connection found for node (account:node)] and calls no
    client; with a session it calls [Close] on it once and answers 200
    with the empty object.  Either way the registry index after the handler
    is the one before it. *)
Theorem handleDisconnect_closes_only (req : request) (connID : connectionID)
    (w : World) :
  decoded req = inr connID ->
  let w' := (handleDisconnect req w).2 in
  connectionMgr w' = connectionMgr w
  /\ match located connID w with
     | None =>
         let errMsg := "No connection found for node (" +:+ Account connID
                         +:+ ":" +:+ NodeID connID +:+ ")" in
         written w'
         = written w
             ++ [(StatusBadRequest,
                  BError (mk_errorResponse errMsg StatusBadRequest errMsg))]
         /\ invoked w' = invoked w
     | Some client =>
         invoked w' = invoked w ++ [InvClose (rid client)]
         /\ written w' = written w ++ [(StatusOK, BEmpty)]
     end.
Proof.
  intros Hdec w'. subst w'.
  split; [apply handlers_keep_registry|].
  run_handler. rewrite Hdec.
  cbn [connectionMgr invoked logged written fst snd].
  destruct (lookupConnection (connectionMgr w) (Account connID) (NodeID connID))
    as [c|]; simpl; repeat split.
Qed.

(** The disconnect theorem at a registered session and at the empty
    registry. *)
Lemma handleDisconnect_closes_only_witness :
  (decoded request_nodeX = inr (mk_connectionID "acct1" "nodeX")
   /\ invoked (handleDisconnect request_nodeX (world_of client_ok)).2
      = [InvClose 1])
  /\ connectionMgr (handleDisconnect request_nodeX (world_of client_ok)).2
     = {[ "acct1" := {[ "nodeX" := client_ok ]} ]}
  /\ written (handleDisconnect request_nodeX world_empty).2
     = [(StatusBadRequest,
         BError (mk_errorResponse "No connection found for node (acct1:nodeX)"
                   StatusBadRequest
                   "No connection found for node (acct1:nodeX)"))].
Proof.
  split; [split; [reflexivity|]|split].
  - exact (proj1 (proj2 (handleDisconnect_closes_only request_nodeX
                           (mk_connectionID "acct1" "nodeX")
                           (world_of client_ok) eq_refl))).
  - exact (proj1 (handleDisconnect_closes_only request_nodeX
                    (mk_connectionID "acct1" "nodeX") (world_of client_ok)
                    eq_refl)).
  - exact (proj1 (proj2 (handleDisconnect_closes_only request_nodeX
                           (mk_connectionID "acct1" "nodeX") world_empty
                           eq_refl))).
Defined.

End ApiFacts.

(** * Sequences of session calls *)

Module DispatchFacts.
Import Controller Dispatch.

(** One send through a reference: what it adds, what room it uses, and
    that other channels are left alone. *)
Lemma send_on_accounting (ch : chanref) (msg : Message) (w : World) :
  outbound ch (send_on ch msg w).2
    = outbound ch w ++ take (sendable ch w) [msg]
  /\ sendable ch (send_on ch msg w).2 = (sendable ch w - 1)%nat
  /\ (forall ch', ch' ≠ ch ->
        outbound ch' (send_on ch msg w).2 = outbound ch' w
        /\ sendable ch' (send_on ch msg w).2 = sendable ch' w)
  /\ logs (send_on ch msg w).2 = logs w.
Proof.
  unfold send_on, sendable, outbound. destruct ch as [l|]; simpl.
  2:{ repeat split; by rewrite ?app_nil_r. }
  destruct (dataChans w !! l) as [[cl rm st]|] eqn:Hc; simpl.
  2:{ rewrite Hc. repeat split; by rewrite ?app_nil_r. }
  unfold chansend; simpl. destruct cl; simpl.
  { rewrite Hc; simpl. repeat split; by rewrite ?app_nil_r. }
  destruct rm as [|n]; simpl.
  { rewrite Hc; simpl. repeat split; by rewrite ?app_nil_r. }
  rewrite lookup_insert_eq; simpl. rewrite take_nil.
  split; [done|]. split; [lia|]. split; [|done].
  intros [k|] Hne; [|done].
  rewrite lookup_insert_ne; [done|congruence].
Qed.

(** One call: the same accounting, for every kind of call. *)
Lemma after_accounting (c : call) (r : ReceptorService) (w : World) :
  SendChannel (after c r w).1 = SendChannel r
  /\ outbound (SendChannel r) (after c r w).2
     = outbound (SendChannel r) w
         ++ take (sendable (SendChannel r) w) (requested c)
  /\ sendable (SendChannel r) (after c r w).2
     = (sendable (SendChannel r) w - length (requested c))%nat
  /\ (forall ch, ch ≠ SendChannel r ->
        outbound ch (after c r w).2 = outbound ch w
        /\ sendable ch (after c r w).2 = sendable ch w)
  /\ logs (after c r w).2 = logs w ++ lines c.
Proof.
  destruct c as [p m | e s | [jobID [e|]] rc rt p d | | ]; simpl;
    try (repeat split; rewrite ?take_nil, ?app_nil_r, ?Nat.sub_0_r;
         try done; by rewrite <- app_assoc).
  pose proof (send_on_accounting (SendChannel r)
                (mk_Message jobID rc rt p d) w) as (Hout & Hroom & Hoth & Hlog).
  destruct (send_on (SendChannel r) (mk_Message jobID rc rt p d) w)
    as [[[]| |why] w'] eqn:Hs; simpl in *;
    rewrite ?app_nil_r; repeat split; try done; by apply Hoth.
Qed.

(** The accounting of one call, carried along a sequence. *)
Lemma after_all_accounting (cs : list call) (r : ReceptorService) (w : World) :
  SendChannel (after_all cs r w).1 = SendChannel r
  /\ outbound (SendChannel r) (after_all cs r w).2
     = outbound (SendChannel r) w
         ++ take (sendable (SendChannel r) w) (requested_all cs)
  /\ sendable (SendChannel r) (after_all cs r w).2
     = (sendable (SendChannel r) w - length (requested_all cs))%nat
  /\ (forall ch, ch ≠ SendChannel r ->
        outbound ch (after_all cs r w).2 = outbound ch w
        /\ sendable ch (after_all cs r w).2 = sendable ch w)
  /\ logs (after_all cs r w).2 = logs w ++ flat_map lines cs.
Proof.
  revert r w. induction cs as [|c cs IH]; intros r w.
  { simpl. rewrite take_nil, !app_nil_r, Nat.sub_0_r. repeat split. }
  unfold requested_all in *. simpl.
  pose proof (after_accounting c r w) as (Hch & Hout & Hroom & Hoth & Hlog).
  destruct (after c r w) as [r1 w1]; simpl in *.
  destruct (IH r1 w1) as (Hch' & Hout' & Hroom' & Hoth' & Hlog').
  rewrite Hch in *. split; [done|]. split; [|split; [|split]].
  - by rewrite Hout', Hout, Hroom, take_app, <- app_assoc.
  - rewrite Hroom', Hroom, length_app. lia.
  - intros ch Hne. destruct (Hoth' ch Hne) as [-> ->]. by apply Hoth.
  - by rewrite Hlog', Hlog, <- app_assoc.
Qed.

(** X1. Along any sequence of session calls, with nothing received from
    the channel in between, the outbound channel receives the requested
    jobs in the order of the calls, each at most once, and only as many as
    the channel had room for. *)
Theorem dispatch_order_and_bound (cs : list call) (r : ReceptorService)
    (w : World) :
  outbound (SendChannel r) (after_all cs r w).2
  = outbound (SendChannel r) w
      ++ take (sendable (SendChannel r) w) (requested_all cs).
Proof. apply after_all_accounting. Qed.

(** X2. The room left on the session's outbound channel after a sequence
    of calls is the room before minus the number of requested jobs, and
    zero when there were more jobs than room; no other call gives room
    back or takes any. *)
Theorem dispatch_uses_room (cs : list call) (r : ReceptorService) (w : World) :
  sendable (SendChannel r) (after_all cs r w).2
  = (sendable (SendChannel r) w - length (requested_all cs))%nat.
Proof. apply after_all_accounting. Qed.

(** X3. No sequence of calls on a session hands anything to, or takes
    room from, a channel other than the session's own outbound channel. *)
Theorem dispatch_leaves_other_channels (cs : list call) (r : ReceptorService)
    (w : World) (ch : chanref) :
  ch ≠ SendChannel r ->
  outbound ch (after_all cs r w).2 = outbound ch w
  /\ sendable ch (after_all cs r w).2 = sendable ch w.
Proof. intros Hne. by apply after_all_accounting. Qed.

Lemma dispatch_leaves_other_channels_witness :
  Some 5%nat ≠ SendChannel session_nodeX
  /\ outbound (Some 5%nat)
       (after_all three_sends session_nodeX
          (mk_World {[ 0%nat := mk_hchan false 4 [];
                       5%nat := mk_hchan false 4 [] ]} ∅ ∅ [])).2
     = [].
Proof.
  split; [discriminate|].
  exact (proj1 (dispatch_leaves_other_channels three_sends session_nodeX
                  (mk_World {[ 0%nat := mk_hchan false 4 [];
                               5%nat := mk_hchan false 4 [] ]} ∅ ∅ [])
                  (Some 5%nat) ltac:(discriminate))).
Defined.

Lemma ends_in_line_feed_app (s : string) :
  ends_in_line_feed (s +:+ String line_feed EmptyString) = true.
Proof.
  induction s as [|c s IH]; [reflexivity|].
  destruct s as [|a s]; [reflexivity|exact IH].
Qed.

Lemma without_last_app (s : string) (c : Ascii.ascii) :
  without_last (s +:+ String c EmptyString) = s.
Proof.
  induction s as [|d s IH]; [reflexivity|].
  destruct s as [|a s]; [reflexivity|].
  change (String d (without_last (String a s +:+ String c EmptyString))
          = String d (String a s)).
  by rewrite IH.
Qed.

(** The entry of a [log.Println], whose message always ends in the line
    feed [fmt.Sprintln] adds, is the message before that line feed. *)
Lemma Println_entry (s : string) :
  without_last (Output (s +:+ String line_feed EmptyString)) = s.
Proof.
  unfold Output. rewrite ends_in_line_feed_app. apply without_last_app.
Qed.

(** The entry of a [log.Printf] is the message, less its last line feed
    when it ends in one. *)
Lemma Printf_entry_cases (s : string) :
  Printf_entry s = if ends_in_line_feed s then without_last s else s.
Proof.
  unfold Printf_entry, Output. destruct (ends_in_line_feed s); [done|].
  apply without_last_app.
Qed.

(** A peer id that ends in a line feed is logged as the same entry as the
    peer id without it: the logger adds no second line feed. *)
Example RegisterConnection_peer_with_line_feed :
  logs (RegisterConnection ("nodeB" +:+ String line_feed EmptyString) inil
          session_nodeX (world_with_room 1)).2
  = ["Registering a connection to node nodeB"]
  /\ logs (RegisterConnection "nodeB" inil session_nodeX (world_with_room 1)).2
     = ["Registering a connection to node nodeB"].
Proof. split; reflexivity. Qed.

(** X4. What a sequence of calls writes to the log is fixed by the calls
    alone, whatever the state of the channels: one entry per
    [RegisterConnection] (the message, which the logger ends with a line
    feed only when the peer id does not already end in one), two per
    [UpdateRoutingTable], one per [SendMessage] whose identifier could not
    be generated, and nothing for a send that went through, parked or
    panicked, nor for [Close] and [DisconnectReceptorNetwork]. *)
Theorem log_is_fixed_by_calls (cs : list call) (r : ReceptorService)
    (w : World) :
  logs (after_all cs r w).2 = logs w ++ flat_map lines cs.
Proof. apply after_all_accounting. Qed.

(** X5. [Close] and [DisconnectReceptorNetwork] have no effect at all:
    dropping every such call from a sequence leaves the same session and
    the same world. *)
Theorem teardown_calls_are_noops (cs : list call) (r : ReceptorService)
    (w : World) :
  after_all (filter (fun c => is_teardown c = false) cs) r w
  = after_all cs r w.
Proof.
  revert r w. induction cs as [|c cs IH]; intros r w; [done|].
  destruct c; rewrite ?filter_cons_True, ?filter_cons_False by (simpl; congruence);
    simpl; try destruct (RegisterConnection _ _ _ _) as [[? ?] ?];
    try destruct (UpdateRoutingTable _ _ _ _) as [[? ?] ?];
    try destruct (SendMessage _ _ _ _ _ _ _) as [[? ?] ?];
    apply IH.
Qed.

(** Worlds that differ at most in the log. *)
Lemma after_modulo_log (c : call) (r : ReceptorService) (d : gmap nat (hchan Message))
    (cc : gmap nat (hchan string)) (ec : gmap nat (hchan error))
    (l1 l2 : list string) :
  exists r' d' l1' l2',
    after c r (mk_World d cc ec l1) = (r', mk_World d' cc ec l1')
    /\ after c r (mk_World d cc ec l2) = (r', mk_World d' cc ec l2').
Proof.
  destruct c as [p m | e s | [jobID [e|]] rc rt p d0 | | ]; simpl;
    try (by do 4 eexists).
  unfold send_on; simpl. destruct (SendChannel r) as [l|]; [|by do 4 eexists].
  destruct (d !! l) as [c|]; [|by do 4 eexists].
  destruct (chansend c _); by do 4 eexists.
Qed.

(** X6. [UpdateRoutingTable] is visible in the log only: dropping every
    such call from a sequence leaves the same session and the same
    channels. *)
Theorem routing_updates_only_log (cs : list call) (r : ReceptorService)
    (w : World) :
  let kept := filter (fun c => is_routing_update c = false) cs in
  (after_all kept r w).1 = (after_all cs r w).1
  /\ dataChans (after_all kept r w).2 = dataChans (after_all cs r w).2
  /\ controlChans (after_all kept r w).2 = controlChans (after_all cs r w).2
  /\ errorChans (after_all kept r w).2 = errorChans (after_all cs r w).2.
Proof.
  cbv zeta. destruct w as [d cc ec l]. generalize l at 1 3 5 7. intros l0.
  revert r d l l0. induction cs as [|c cs IH]; intros r d l l0; [done|].
  destruct (is_routing_update c) eqn:Hc.
  - rewrite filter_cons_False by congruence.
    destruct c; try discriminate. simpl. apply IH.
  - rewrite filter_cons_True by done. simpl.
    destruct (after_modulo_log c r d cc ec l0 l) as (r' & d' & l1' & l2' & -> & ->).
    apply IH.
Qed.

(** X7. After any sequence of calls the session's peer identity and
    metadata are those of the last [RegisterConnection] in it, and the
    original ones when there was none: no other method writes them. *)
Theorem last_registration_wins (cs : list call) (r : ReceptorService)
    (w : World) :
  (PeerNodeID (after_all cs r w).1, Metadata (after_all cs r w).1)
  = default (PeerNodeID r, Metadata r) (last_registration cs).
Proof.
  revert r w. induction cs as [|c cs IH]; intros r w; [done|].
  simpl. destruct (after c r w) as [r1 w1] eqn:Hc. rewrite IH.
  destruct (last_registration cs) as [reg|]; [done|]. simpl.
  destruct c as [p m | e s | [jobID [e|]] rc rt p d | | ]; simpl in Hc;
    try (injection Hc as <- _; reflexivity).
  destruct (send_on _ _ _) as [[[]| |why] w']; injection Hc as <- _; reflexivity.
Qed.

End DispatchFacts.

(** * Sequences of management requests *)

Module ServingFacts.
Import Api Serving.
Import ApiFacts.

(** X8. When the body cannot be decoded, each of the three handlers
    answers with the 400 error response [Unable to process json input]
    carrying the decoder's message, and does nothing else: no client is
    called, nothing is logged and the registry is as before. *)
Theorem undecodable_body_is_rejected (e : endpoint) (req : request)
    (detail : string) (w : World) :
  decoded req = inl detail ->
  handle e req w
  = (tt, mk_World (connectionMgr w) (invoked w) (logged w)
           (written w
              ++ [(StatusBadRequest,
                   BError (mk_errorResponse "Unable to process json input"
                             StatusBadRequest detail))])).
Proof.
  intros Hdec. destruct e; unfold handle; run_handler; by rewrite Hdec.
Qed.

Lemma undecodable_body_is_rejected_witness :
  decoded request_garbled = inl "unexpected end of JSON input"
  /\ answer ConnectionPing request_garbled (world_of client_ok)
     = Some (StatusBadRequest,
             BError (mk_errorResponse "Unable to process json input"
                       StatusBadRequest "unexpected end of JSON input")).
Proof.
  split; [reflexivity|]. unfold answer.
  by rewrite (undecodable_body_is_rejected ConnectionPing request_garbled
                "unexpected end of JSON input" (world_of client_ok) eq_refl).
Defined.

(** What one request adds to the world. *)
Lemma handle_step (e : endpoint) (req : request) (w : World) :
  connectionMgr (handle e req w).2 = connectionMgr w
  /\ (exists resp, written (handle e req w).2 = written w ++ [resp]
                   /\ coherent resp)
  /\ (exists calls, invoked (handle e req w).2 = invoked w ++ calls
                    /\ (is_disconnect e = false ->
                        Forall (fun i => is_close i = false) calls)).
Proof.
  split.
  { destruct e; apply handlers_keep_registry. }
  destruct e; unfold handle; run_handler;
    (destruct (decoded req) as [err|connID];
     [ split; [eexists; split; [reflexivity|by split]
              | exists []; by rewrite app_nil_r ] | ]);
    cbn [connectionMgr invoked logged written fst snd];
    (destruct (lookupConnection (connectionMgr w) (Account connID) (NodeID connID))
       as [c|]; simpl;
     [ | split; [eexists; split; [reflexivity|by split]
                | exists []; by rewrite app_nil_r ] ]).
  - split; [eexists; split; [reflexivity|by split] | eexists; split; [reflexivity|done] ].
  - destruct (getCapabilities c) as [caps [er|]]; simpl;
      (split; [eexists; split; [reflexivity|by split]
              | eexists; split; [reflexivity|by repeat constructor] ]).
  - destruct (ping c (Account connID) (NodeID connID) [NodeID connID])
      as [payload [er|]]; simpl;
      (split; [eexists; split; [reflexivity|by split]
              | eexists; split; [reflexivity|by repeat constructor] ]).
Qed.

Lemma serve_keeps_registry (rs : list (endpoint * request)) (w : World) :
  connectionMgr (serve rs w) = connectionMgr w.
Proof.
  revert w. induction rs as [|[e req] rs IH]; intros w; [done|].
  simpl. rewrite IH. apply handle_step.
Qed.

(** X9. Serving any sequence of requests writes exactly one response per
    request, in the order of the requests: the i-th response written is
    the one the handler of the i-th request writes in the world left by
    the requests before it.  Each response is coherent: an error body goes
    out with status 400 and carries 400 in its own status field, any other
    body goes out with 200. *)
Theorem one_coherent_response_per_request (rs : list (endpoint * request))
    (w : World) :
  exists resps,
    written (serve rs w) = written w ++ resps
    /\ length resps = length rs
    /\ Forall coherent resps
    /\ (forall (i : nat) (e : endpoint) (req : request),
          rs !! i = Some (e, req) ->
          resps !! i = answer e req (serve (take i rs) w)).
Proof.
  revert w. induction rs as [|[e req] rs IH]; intros w.
  { exists []. rewrite app_nil_r. repeat split; [done|].
    intros i e req Hi. by rewrite lookup_nil in Hi. }
  simpl. destruct (handle_step e req w) as (_ & (resp & Hw & Hcoh) & _).
  destruct (IH (handle e req w).2) as (resps & Hws & Hlen & Hall & Hith).
  exists (resp :: resps). rewrite Hws, Hw, <- app_assoc. simpl.
  split; [done|]. split; [by rewrite Hlen|]. split; [by constructor|].
  intros [|i] e' req' Hi; simpl in *.
  - injection Hi as <- <-. unfold answer. by rewrite Hw, last_snoc.
  - by apply Hith.
Qed.

(** X10. Only the disconnect endpoint calls [Close]: serving status and
    ping requests, however many, closes no client. *)
Theorem only_disconnect_closes (rs : list (endpoint * request)) (w : World) :
  Forall (fun r => is_disconnect r.1 = false) rs ->
  exists calls,
    invoked (serve rs w) = invoked w ++ calls
    /\ Forall (fun i => is_close i = false) calls.
Proof.
  revert w. induction rs as [|[e req] rs IH]; intros w Hrs.
  { exists []. by rewrite app_nil_r. }
  inversion Hrs as [|? ? He Hrs']; subst. simpl in He.
  destruct (handle_step e req w) as (_ & _ & (calls & Hc & Hno)).
  destruct (IH (handle e req w).2 Hrs') as (calls' & Hc' & Hno').
  exists (calls ++ calls'). simpl. rewrite Hc', Hc, <- app_assoc.
  split; [done|]. apply Forall_app. split; [by apply Hno|done].
Qed.

Lemma only_disconnect_closes_witness :
  Forall (fun r : endpoint * request => is_disconnect r.1 = false)
    [(ConnectionStatus, request_nodeX); (ConnectionPing, request_nodeX)]
  /\ exists calls,
       invoked (serve [(ConnectionStatus, request_nodeX);
                       (ConnectionPing, request_nodeX)] (world_of client_ok))
       = invoked (world_of client_ok) ++ calls
       /\ Forall (fun i => is_close i = false) calls.
Proof.
  split; [by repeat constructor|].
  apply (only_disconnect_closes
           [(ConnectionStatus, request_nodeX); (ConnectionPing, request_nodeX)]
           (world_of client_ok)).
  by repeat constructor.
Defined.

End ServingFacts.

(** * The connection listings *)

Module ListingFacts.
Import Api Listing.

Lemma store_inside {A : Type} (i : nat) (x : A) (l : list A) :
  (i < length l)%nat -> store i x l = Some (<[i := x]> l).
Proof.
  intros Hi. unfold store, modify.
  destruct (lookup_lt_is_Some_2 l i Hi) as [y ->]. done.
Qed.

Lemma store_outside {A : Type} (i : nat) (x : A) (l : list A) :
  (length l <= i)%nat -> store i x l = None.
Proof.
  intros Hi. unfold store, modify. by rewrite lookup_ge_None_2.
Qed.

(** The loop from slot [i] on: it overwrites the slots [i], [i+1], ... with
    the keys, and panics as soon as a key has no slot. *)
Lemma fillNodes_from (keys : list string) (i : nat) (conns : list string) :
  (i <= length conns)%nat ->
  fillNodes keys i conns
  = if decide (i + length keys <= length conns)%nat
    then Some (take i conns ++ keys ++ drop (i + length keys) conns)
    else None.
Proof.
  revert i conns. induction keys as [|k keys IH]; intros i conns Hi; simpl.
  { rewrite decide_True by lia. by rewrite Nat.add_0_r, take_drop. }
  destruct (decide (i < length conns)%nat) as [Hlt|Hge].
  - rewrite store_inside by done. simpl.
    rewrite IH by (rewrite length_insert; lia). rewrite length_insert.
    destruct (decide (i + S (length keys) <= length conns)%nat).
    + rewrite decide_True by lia. f_equal.
      rewrite (take_S_r _ _ k) by (by apply list_lookup_insert_eq).
      rewrite take_insert_ge by lia. rewrite drop_insert_lt by lia.
      rewrite <- app_assoc. simpl. by rewrite Nat.add_succ_r.
    + by rewrite decide_False by lia.
  - rewrite store_outside by lia. simpl. by rewrite decide_False by lia.
Qed.

(** X11. The index-assignment loop over a fresh slice of [n] slots ends
    with the keys in the order they were yielded, followed by the slots
    that were left at their zero value; with more keys than slots it
    panics (index out of range). *)
Theorem fill_loop_bounds (keys : list string) (n : nat) :
  fillNodes keys 0 (replicate n "")
  = if decide (length keys <= n)%nat
    then Some (keys ++ replicate (n - length keys) "")
    else None.
Proof.
  rewrite fillNodes_from by lia. rewrite length_replicate. simpl.
  destruct (decide (length keys <= n)%nat); [|done].
  by rewrite drop_replicate.
Qed.

(** What a range over a map yields, when it yields every entry once. *)
Lemma range_keys (m : gmap string Receptor) (items : list (string * Receptor)) :
  items ≡ₚ map_to_list m ->
  length items.*1 = size m
  /\ NoDup items.*1
  /\ (forall n, n ∈ items.*1 <-> is_Some (m !! n)).
Proof.
  intros Hperm. split; [|split].
  - by rewrite length_fmap, Hperm, length_map_to_list.
  - rewrite Hperm. apply NoDup_fst_map_to_list.
  - intros n. rewrite Hperm, list_elem_of_fmap. split.
    + intros ([k c] & -> & Hin). apply elem_of_map_to_list in Hin. by eexists.
    + intros [c Hc]. exists (n, c). split; [done|].
      by apply elem_of_map_to_list.
Qed.

Lemma lookup_by_account (index : gmap string (gmap string Receptor))
    (account node_id : string) :
  lookupConnection index account node_id
  = default ∅ (index !! account) !! node_id.
Proof.
  unfold lookupConnection. destruct (index !! account) as [m|]; simpl; [done|].
  by rewrite lookup_empty.
Qed.

(** The listing for one account, in the order the range yields the nodes. *)
Lemma handleConnectionListingByAccount_result
    (rangeNodes : string -> gmap string Receptor -> list (string * Receptor))
    (req : request) (w : World) :
  (forall a m, rangeNodes a m ≡ₚ map_to_list m) ->
  handleConnectionListingByAccount rangeNodes req w
  = Some (mk_World (connectionMgr w)
            (debugged w ++ [(requestFields req,
                             "Getting connections for " +:+ accountId req)])
            (written w
               ++ [(StatusOK,
                    AccountConnections
                      (rangeNodes (accountId req)
                         (GetConnectionsByAccount (accountId req) w)).*1)])).
Proof.
  intros Hrange. unfold handleConnectionListingByAccount.
  change (GetConnectionsByAccount (accountId req) (debug _ _ w))
    with (GetConnectionsByAccount (accountId req) w).
  set (m := GetConnectionsByAccount (accountId req) w).
  destruct (range_keys m _ (Hrange (accountId req) m)) as (Hlen & _).
  rewrite fillNodes_from by lia. rewrite length_replicate. simpl.
  rewrite decide_True by lia. simpl. rewrite drop_replicate, Hlen, Nat.sub_diag.
  simpl. by rewrite app_nil_r.
Qed.

(** X12. Whatever order the range over the map takes, the listing for one
    account does not panic and answers 200 with the node ids registered
    under that account, each exactly once: a node id is in the list
    exactly when the registry has a session for it. *)
Theorem listing_by_account_is_exact
    (rangeNodes : string -> gmap string Receptor -> list (string * Receptor))
    (req : request) (w : World) :
  (forall a m, rangeNodes a m ≡ₚ map_to_list m) ->
  exists w' nodes,
    handleConnectionListingByAccount rangeNodes req w = Some w'
    /\ written w' = written w ++ [(StatusOK, AccountConnections nodes)]
    /\ connectionMgr w' = connectionMgr w
    /\ NoDup nodes
    /\ (forall n, n ∈ nodes
                  <-> is_Some (lookupConnection (connectionMgr w)
                                 (accountId req) n)).
Proof.
  intros Hrange.
  rewrite (handleConnectionListingByAccount_result _ _ _ Hrange).
  do 2 eexists. split; [reflexivity|]. simpl. split; [reflexivity|].
  split; [reflexivity|].
  set (m := GetConnectionsByAccount (accountId req) w).
  destruct (range_keys m _ (Hrange (accountId req) m)) as (_ & Hnd & Hin).
  split; [done|]. intros n. rewrite Hin. by rewrite lookup_by_account.
Qed.

Lemma listing_by_account_is_exact_witness :
  (forall (a : string) (m : gmap string Receptor),
     (fun _ m' => map_to_list m') a m ≡ₚ map_to_list m)
  /\ exists w' nodes,
       handleConnectionListingByAccount (fun _ m' => map_to_list m')
         (request_acct "acct1") world_three = Some w'
       /\ written w' = written world_three
                         ++ [(StatusOK, AccountConnections nodes)]
       /\ connectionMgr w' = connectionMgr world_three
       /\ NoDup nodes
       /\ (forall n, n ∈ nodes
                     <-> is_Some (lookupConnection (connectionMgr world_three)
                                    (accountId (request_acct "acct1")) n)).
Proof.
  split; [done|].
  apply (listing_by_account_is_exact (fun _ m' => map_to_list m')
           (request_acct "acct1") world_three).
  done.
Defined.

(** X13. For an account the registry does not know, the listing answers
    200 with the empty list: no error and no panic. *)
Theorem listing_unknown_account
    (rangeNodes : string -> gmap string Receptor -> list (string * Receptor))
    (req : request) (w : World) :
  (forall a m, rangeNodes a m ≡ₚ map_to_list m) ->
  connectionMgr w !! accountId req = None ->
  exists w',
    handleConnectionListingByAccount rangeNodes req w = Some w'
    /\ written w' = written w ++ [(StatusOK, AccountConnections [])].
Proof.
  intros Hrange Hnone.
  rewrite (handleConnectionListingByAccount_result _ _ _ Hrange).
  eexists. split; [reflexivity|]. simpl.
  unfold GetConnectionsByAccount. rewrite Hnone. simpl.
  pose proof (Hrange (accountId req) ∅) as Hperm.
  rewrite map_to_list_empty in Hperm. apply Permutation_nil_r in Hperm.
  by rewrite Hperm.
Qed.

Lemma listing_unknown_account_witness :
  (forall (a : string) (m : gmap string Receptor),
     (fun _ m' => map_to_list m') a m ≡ₚ map_to_list m)
  /\ connectionMgr world_three !! accountId (request_acct "acct3") = None
  /\ exists w',
       handleConnectionListingByAccount (fun _ m' => map_to_list m')
         (request_acct "acct3") world_three = Some w'
       /\ written w' = written world_three
                         ++ [(StatusOK, AccountConnections [])].
Proof.
  split; [done|]. split; [reflexivity|].
  apply (listing_unknown_account (fun _ m' => map_to_list m')
           (request_acct "acct3") world_three); [done|reflexivity].
Defined.

(** The inner loop of the full listing is the plain loop on the element's
    [Connections]. *)
Lemma fillAccountNodes_element (keys : list string) (a n : nat)
    (conns : list ConnectionsPerAccount) (e : ConnectionsPerAccount) :
  conns !! a = Some e ->
  fillAccountNodes keys a n conns
  = nodes ← fillNodes keys n (Connections e);
    Some (<[a := mk_ConnectionsPerAccount (AccountNumber e) nodes]> conns).
Proof.
  revert n conns e. induction keys as [|k keys IH]; intros n conns e He; simpl.
  { rewrite list_insert_id; [done|]. by destruct e. }
  unfold modify at 1. rewrite He. simpl.
  destruct (store n k (Connections e)) as [nodes'|]; simpl; [|done].
  rewrite (IH _ _ (mk_ConnectionsPerAccount (AccountNumber e) nodes')).
  - simpl. destruct (fillNodes keys (S n) nodes'); simpl; [|done].
    by rewrite list_insert_insert_eq.
  - apply list_lookup_insert_eq. by eapply lookup_lt_Some.
Qed.

(** The outer loop from slot [i] on. *)
Lemma fillAccounts_from
    (rangeNodes : string -> gmap string Receptor -> list (string * Receptor))
    (items : list (string * gmap string Receptor)) (i : nat)
    (conns : list ConnectionsPerAccount) :
  (forall a m, rangeNodes a m ≡ₚ map_to_list m) ->
  (i + length items <= length conns)%nat ->
  fillAccounts rangeNodes items i conns
  = Some (take i conns ++ (entry_of rangeNodes <$> items)
            ++ drop (i + length items) conns).
Proof.
  intros Hrange. revert i conns.
  induction items as [|[k v] items IH]; intros i conns Hi; simpl in *.
  { by rewrite Nat.add_0_r, take_drop. }
  destruct (lookup_lt_is_Some_2 conns i ltac:(lia)) as [e He].
  unfold modify at 2. rewrite He. simpl.
  unfold modify at 1. rewrite list_lookup_insert_eq by lia. simpl.
  rewrite list_insert_insert_eq.
  erewrite fillAccountNodes_element
    by (apply list_lookup_insert_eq; lia). simpl.
  destruct (range_keys v _ (Hrange k v)) as (Hlen & _).
  rewrite fillNodes_from by lia. rewrite length_replicate. simpl.
  rewrite decide_True by lia. simpl.
  rewrite drop_replicate, Hlen, Nat.sub_diag, app_nil_r, list_insert_insert_eq.
  rewrite IH by (rewrite length_insert; lia). f_equal.
  rewrite (take_S_r _ _ (entry_of rangeNodes (k, v)))
    by (apply list_lookup_insert_eq; lia).
  rewrite take_insert_ge by lia. rewrite drop_insert_lt by lia.
  rewrite <- app_assoc. simpl. by rewrite Nat.add_succ_r.
Qed.

(** The full listing, in the order the ranges yield accounts and nodes. *)
Lemma handleConnectionListing_result
    (rangeAccounts : gmap string (gmap string Receptor)
                     -> list (string * gmap string Receptor))
    (rangeNodes : string -> gmap string Receptor -> list (string * Receptor))
    (req : request) (w : World) :
  range_order rangeAccounts rangeNodes ->
  handleConnectionListing rangeAccounts rangeNodes req w
  = Some (mk_World (connectionMgr w)
            (debugged w ++ [(requestFields req, "Getting connection list")])
            (written w
               ++ [(StatusOK,
                    AllConnections
                      (entry_of rangeNodes <$> rangeAccounts (connectionMgr w)))])).
Proof.
  intros [Hacc Hnodes]. unfold handleConnectionListing, GetAllConnections.
  cbn [connectionMgr debug].
  assert (length (rangeAccounts (connectionMgr w)) = size (connectionMgr w))
    as Hlen by (by rewrite Hacc, length_map_to_list).
  rewrite fillAccounts_from by (rewrite ?length_replicate; done || lia).
  simpl. rewrite drop_replicate, Hlen, Nat.sub_diag. simpl.
  by rewrite app_nil_r.
Qed.

(** X14. Whatever order the ranges take, the full listing does not panic
    and answers 200 with one entry per account of the registry, no
    account twice, and within an entry no node id twice. *)
Theorem listing_has_one_entry_per_account
    (rangeAccounts : gmap string (gmap string Receptor)
                     -> list (string * gmap string Receptor))
    (rangeNodes : string -> gmap string Receptor -> list (string * Receptor))
    (req : request) (w : World) :
  range_order rangeAccounts rangeNodes ->
  exists w' conns,
    handleConnectionListing rangeAccounts rangeNodes req w = Some w'
    /\ written w' = written w ++ [(StatusOK, AllConnections conns)]
    /\ connectionMgr w' = connectionMgr w
    /\ length conns = size (connectionMgr w)
    /\ NoDup (AccountNumber <$> conns)
    /\ (forall a, a ∈ AccountNumber <$> conns
                  <-> is_Some (connectionMgr w !! a))
    /\ Forall (fun c => NoDup (Connections c)) conns.
Proof.
  intros Horder.
  rewrite (handleConnectionListing_result _ _ _ _ Horder).
  destruct Horder as [Hacc Hnodes].
  do 2 eexists. split; [reflexivity|]. simpl.
  do 2 (split; [reflexivity|]).
  assert (AccountNumber <$> (entry_of rangeNodes <$> rangeAccounts (connectionMgr w))
          = (rangeAccounts (connectionMgr w)).*1) as Hnames.
  { rewrite <- list_fmap_compose. by apply list_fmap_ext. }
  rewrite Hnames. split; [|split; [|split]].
  - by rewrite length_fmap, Hacc, length_map_to_list.
  - rewrite Hacc. apply NoDup_fst_map_to_list.
  - intros a. rewrite Hacc, list_elem_of_fmap. split.
    + intros ([k v] & -> & Hin). apply elem_of_map_to_list in Hin. by eexists.
    + intros [v Hv]. exists (a, v). split; [done|].
      by apply elem_of_map_to_list.
  - apply Forall_fmap, Forall_forall. intros [k v] _. simpl.
    by destruct (range_keys v _ (Hnodes k v)) as (_ & Hnd & _).
Qed.

Lemma listing_has_one_entry_per_account_witness :
  range_order map_to_list (fun _ m => map_to_list m)
  /\ exists w' conns,
       handleConnectionListing map_to_list (fun _ m => map_to_list m)
         (request_acct "") world_three = Some w'
       /\ written w' = written world_three ++ [(StatusOK, AllConnections conns)]
       /\ connectionMgr w' = connectionMgr world_three
       /\ length conns = size (connectionMgr world_three)
       /\ NoDup (AccountNumber <$> conns)
       /\ (forall a, a ∈ AccountNumber <$> conns
                     <-> is_Some (connectionMgr world_three !! a))
       /\ Forall (fun c => NoDup (Connections c)) conns.
Proof.
  assert (range_order map_to_list (fun _ m => map_to_list m)) as Horder
    by (by split).
  split; [exact Horder|].
  exact (listing_has_one_entry_per_account map_to_list
           (fun _ m => map_to_list m) (request_acct "") world_three Horder).
Defined.

(** X15. The full listing agrees with the point lookup: a node id is
    listed under an account exactly when [GetConnection] finds a session
    for that account and node. *)
Theorem listing_agrees_with_lookup
    (rangeAccounts : gmap string (gmap string Receptor)
                     -> list (string * gmap string Receptor))
    (rangeNodes : string -> gmap string Receptor -> list (string * Receptor))
    (req : request) (w : World) :
  range_order rangeAccounts rangeNodes ->
  exists w' conns,
    handleConnectionListing rangeAccounts rangeNodes req w = Some w'
    /\ written w' = written w ++ [(StatusOK, AllConnections conns)]
    /\ (forall a n, listed a n conns
                    <-> is_Some (lookupConnection (connectionMgr w) a n)).
Proof.
  intros Horder.
  rewrite (handleConnectionListing_result _ _ _ _ Horder).
  destruct Horder as [Hacc Hnodes].
  do 2 eexists. split; [reflexivity|]. simpl. split; [reflexivity|].
  intros a n. unfold listed, lookupConnection. split.
  - intros (c & Hc & <- & Hn).
    apply list_elem_of_fmap in Hc as ([k v] & -> & Hin). simpl in *.
    rewrite Hacc in Hin. apply elem_of_map_to_list in Hin. rewrite Hin. simpl.
    by apply (range_keys v _ (Hnodes k v)).
  - destruct (connectionMgr w !! a) as [v|] eqn:Hv; simpl;
      [|by intros [? ?]].
    intros Hn. exists (entry_of rangeNodes (a, v)). split; [|split; [done|]].
    + apply list_elem_of_fmap. exists (a, v). split; [done|].
      rewrite Hacc. by apply elem_of_map_to_list.
    + simpl. by apply (range_keys v _ (Hnodes a v)).
Qed.

Lemma listing_agrees_with_lookup_witness :
  range_order map_to_list (fun _ m => map_to_list m)
  /\ exists w' conns,
       handleConnectionListing map_to_list (fun _ m => map_to_list m)
         (request_acct "") world_three = Some w'
       /\ written w' = written world_three ++ [(StatusOK, AllConnections conns)]
       /\ (forall a n, listed a n conns
                       <-> is_Some (lookupConnection
                                      (connectionMgr world_three) a n)).
Proof.
  assert (range_order map_to_list (fun _ m => map_to_list m)) as Horder
    by (by split).
  split; [exact Horder|].
  exact (listing_agrees_with_lookup map_to_list
           (fun _ m => map_to_list m) (request_acct "") world_three Horder).
Defined.

End ListingFacts.
